(** * SharesService (api/src/services/shares.ts): share-link login and invitations

    A shallow embedding of [SharesService.login] and [SharesService.invite].
    The two SQL tables the service touches are lists of rows, the store and
    the mail outbox are threaded through a state-and-exception monad, and
    everything the service calls but does not define (knex's clock and
    failures, argon2, jsonwebtoken, nanoid, ms, the items/users/mail
    services) is a field of [Externals].

    Timestamps are milliseconds in [Z]; a nullable column is an [option]. *)

From stdpp Require Import base numbers list strings.

Local Open Scope Z_scope.

(** ** Data model *)

(** A row of [directus_shares], with the columns [login] selects. *)
Module Shares.
Record row := Row {
  id : string;
  role : string;
  item : string;
  collection : string;
  date_start : option Z;
  date_end : option Z;
  times_used : Z;
  max_uses : option Z;
  password : option string
}.
End Shares.

(** A row of [directus_sessions], with the columns [login] inserts. *)
Module Sessions.
Record row := Row {
  token : string;
  expires : Z;
  ip : option string;
  user_agent : option string;
  share : option string
}.
End Sessions.

(** [ShareData]: the aliased columns of the select at lines 43-53. *)
Record ShareData := {
  share_id : string;
  share_role : string;
  share_item : string;
  share_collection : string;
  share_start : option Z;
  share_end : option Z;
  share_times_used : Z;
  share_max_uses : option Z;
  share_password : option string
}.

(** [DirectusTokenPayload], lines 79-88. *)
Module Token.
Record share_scope_t := { item : string; collection : string }.
Record payload := {
  app_access : bool;
  admin_access : bool;
  role : string;
  share : string;
  share_scope : share_scope_t
}.
End Token.

Record LoginResult := {
  accessToken : string;
  refreshToken : string;
  expires : Z
}.

(** The argument of [login]: [payload.share] and the optional
    [payload.password]. *)
Module Payload.
Record login := { share : string; password : option string }.
Record invite := { emails : list string; invite_share : string }.
End Payload.

(** [this.accountability]; each field may be missing. *)
Record Accountability := {
  user : option string;
  ip : option string;
  userAgent : option string
}.

(** The argument of [mailService.send], lines 144-153. *)
Record Mail := {
  template_name : string;
  template_html : string;
  to : string;
  subject : string
}.

Record UserInfo := {
  first_name : option string;
  last_name : option string;
  email : option string;
  user_pk : string
}.

(** ** Exceptions and promises *)

Inductive Collaborator := Knex | Argon2 | Jwt | ItemsRead | UsersRead | MailSend.

(** The two exceptions the service raises itself, and the rejection of a
    collaborator, which the service never catches. *)
Inductive Exception :=
| InvalidCredentialsException
| ForbiddenException
| Rejected (by_whom : Collaborator).

(** What an awaited call of a collaborator settles to. *)
Inductive Promise (A : Type) :=
| Resolves (a : A)
| Rejects.
Arguments Resolves {A} a.
Arguments Rejects {A}.

Inductive Statement := SelectShare | UpdateShare | InsertSession | DeleteSessions.

#[export] Instance Statement_eq_dec : EqDecision Statement.
Proof. solve_decision. Defined.

(** ** The world outside the service *)

Record Externals := {
  (** [this.knex.fn.now()], the store's clock in the select *)
  knex_now : Z;
  (** whether the store rejects a statement (persistence unavailable) *)
  knex_rejects : Statement -> bool;
  (** [argon2.verify(hash, plain)] *)
  argon2_verify : string -> option string -> Promise bool;
  (** [jwt.sign(payload, env.SECRET, {expiresIn, issuer})] *)
  jwt_sign : Token.payload -> Promise string;
  (** [nanoid(64)] *)
  nanoid64 : string;
  (** [Date.now()] at line 96 and [new Date()] at line 106 *)
  Date_now : Z;
  new_Date : Z;
  (** [ms(env.ACCESS_TOKEN_TTL)] and [ms(env.REFRESH_TOKEN_TTL)] *)
  ACCESS_TOKEN_TTL : Z;
  REFRESH_TOKEN_TTL : Z;
  (** [env.PUBLIC_URL] *)
  PUBLIC_URL : string;
  (** [this.readOne(pk, {fields: ['collection']})] of ItemsService *)
  readOne : string -> Promise string;
  (** [usersService.readOne(user, {fields: [...]})] *)
  users_readOne : string -> Promise UserInfo;
  (** [userName] of utils/user-name and [md] of utils/md *)
  userName : UserInfo -> string;
  md : string -> string;
  (** whether [mailService.send] rejects a message *)
  mail_rejects : Mail -> bool
}.

(** A service instance: its accountability and its collaborators. *)
Record SharesService := {
  accountability : option Accountability;
  ext : Externals
}.

(** The persistent store and the messages dispatched so far. *)
Record World := {
  directus_shares : list Shares.row;
  directus_sessions : list Sessions.row;
  outbox : list Mail
}.

(** ** The monad of the service: state, and an exception that keeps the state
    reached when it was thrown (no statement of the service runs in a
    transaction, so nothing is rolled back). *)

Inductive Outcome (A : Type) :=
| Returns (a : A)
| Throws (e : Exception).
Arguments Returns {A} a.
Arguments Throws {A} e.

Definition Async (A : Type) : Type := World -> Outcome A * World.

#[export] Instance Async_ret : MRet Async := fun A a w => (Returns a, w).

#[export] Instance Async_bind : MBind Async := fun A B k m w =>
  match m w with
  | (Returns a, w') => k a w'
  | (Throws e, w') => (Throws e, w')
  end.

Definition throw {A : Type} (e : Exception) : Async A := fun w => (Throws e, w).

Definition get_world : Async World := fun w => (Returns w, w).

Definition put_world (w : World) : Async unit := fun _ => (Returns tt, w).

(** [await] of a collaborator's promise. *)
Definition await {A : Type} (who : Collaborator) (p : Promise A) : Async A :=
  match p with
  | Resolves a => mret a
  | Rejects => throw (Rejected who)
  end.

(** A statement the store may reject; a rejected statement changes nothing. *)
Definition statement (svc : SharesService) (s : Statement) : Async unit :=
  if knex_rejects (ext svc) s then throw (Rejected Knex) else mret tt.

(** ** JavaScript truthiness of a nullable string *)

Definition truthy (s : option string) : bool :=
  match s with
  | None => false
  | Some EmptyString => false
  | Some (String _ _) => true
  end.

(** ** The select of lines 42-65 *)

(** [whereNull('date_end').orWhere('date_end', '>=', now)] *)
Definition end_ok (now : Z) (r : Shares.row) : Prop :=
  match Shares.date_end r with None => True | Some e => now ≤ e end.

(** [whereNull('date_start').orWhere('date_start', '<=', now)] *)
Definition start_ok (now : Z) (r : Shares.row) : Prop :=
  match Shares.date_start r with None => True | Some s => s ≤ now end.

(** [whereNull('max_uses').orWhere('max_uses', '>=', ref('times_used'))] *)
Definition uses_ok (r : Shares.row) : Prop :=
  match Shares.max_uses r with None => True | Some m => Shares.times_used r ≤ m end.

#[export] Instance end_ok_dec now r : Decision (end_ok now r).
Proof. unfold end_ok. destruct (Shares.date_end r); apply _. Defined.

#[export] Instance start_ok_dec now r : Decision (start_ok now r).
Proof. unfold start_ok. destruct (Shares.date_start r); apply _. Defined.

#[export] Instance uses_ok_dec r : Decision (uses_ok r).
Proof. unfold uses_ok. destruct (Shares.max_uses r); apply _. Defined.

(** The whole where-clause. *)
Definition share_where (now : Z) (pk : string) (r : Shares.row) : Prop :=
  Shares.id r = pk ∧ end_ok now r ∧ start_ok now r ∧ uses_ok r.

#[export] Instance share_where_dec now pk r : Decision (share_where now pk r).
Proof. unfold share_where. apply _. Defined.

Definition select_columns (r : Shares.row) : ShareData :=
  {| share_id := Shares.id r;
     share_role := Shares.role r;
     share_item := Shares.item r;
     share_collection := Shares.collection r;
     share_start := Shares.date_start r;
     share_end := Shares.date_end r;
     share_times_used := Shares.times_used r;
     share_max_uses := Shares.max_uses r;
     share_password := Shares.password r |}.

(** [.first()]: the first row of the table that passes the where-clause, or
    undefined. *)
Definition first_row (now : Z) (pk : string) (tbl : list Shares.row) : option Shares.row :=
  head (filter (share_where now pk) tbl).

Definition select_share (svc : SharesService) (pk : string) : Async (option ShareData) :=
  _ ← statement svc SelectShare;
  w ← get_world;
  mret (select_columns <$> first_row (knex_now (ext svc)) pk (directus_shares w)).

(** ** The writes of lines 75-77, 98-104 and 106 *)

Definition set_times_used (v : Z) (r : Shares.row) : Shares.row :=
  Shares.Row (Shares.id r) (Shares.role r) (Shares.item r) (Shares.collection r)
    (Shares.date_start r) (Shares.date_end r) v (Shares.max_uses r) (Shares.password r).

(** [update({times_used: v}).where('id', pk)] on the rows of the table. *)
Definition updated (v : Z) (pk : string) (tbl : list Shares.row) : list Shares.row :=
  (fun r => if decide (Shares.id r = pk) then set_times_used v r else r) <$> tbl.

(** [delete().where('expires', '<', d)] on the rows of the table. *)
Definition swept (d : Z) (tbl : list Sessions.row) : list Sessions.row :=
  filter (fun s => ¬ (Sessions.expires s < d)) tbl.

(** [knex('directus_shares').update({times_used: v}).where('id', pk)] *)
Definition update_times_used (svc : SharesService) (v : Z) (pk : string) : Async unit :=
  _ ← statement svc UpdateShare;
  w ← get_world;
  put_world
    {| directus_shares := updated v pk (directus_shares w);
       directus_sessions := directus_sessions w;
       outbox := outbox w |}.

(** [knex('directus_sessions').insert(row)] *)
Definition insert_session (svc : SharesService) (s : Sessions.row) : Async unit :=
  _ ← statement svc InsertSession;
  w ← get_world;
  put_world
    {| directus_shares := directus_shares w;
       directus_sessions := directus_sessions w ++ [s];
       outbox := outbox w |}.

(** [knex('directus_sessions').delete().where('expires', '<', d)] *)
Definition delete_expired (svc : SharesService) (d : Z) : Async unit :=
  _ ← statement svc DeleteSessions;
  w ← get_world;
  put_world
    {| directus_shares := directus_shares w;
       directus_sessions := swept d (directus_sessions w);
       outbox := outbox w |}.

(** ** login, lines 41-113 *)

(** Lines 42-73: the select and the password check. *)
Definition verify (svc : SharesService) (payload : Payload.login) : Async ShareData :=
  record ← select_share svc (Payload.share payload);
  match record with
  | None => throw InvalidCredentialsException
  | Some record =>
      if truthy (share_password record) then
        ok ← await Argon2
               (argon2_verify (ext svc) (default EmptyString (share_password record))
                  (Payload.password payload));
        if ok : bool then mret record else throw InvalidCredentialsException
      else mret record
  end.

Definition tokenPayload (record : ShareData) : Token.payload :=
  {| Token.app_access := false;
     Token.admin_access := false;
     Token.role := share_role record;
     Token.share := share_id record;
     Token.share_scope :=
       {| Token.item := share_item record; Token.collection := share_collection record |} |}.

(** The session row of lines 98-104. *)
Definition new_session (svc : SharesService) (record : ShareData) : Sessions.row :=
  {| Sessions.token := nanoid64 (ext svc);
     Sessions.expires := Date_now (ext svc) + REFRESH_TOKEN_TTL (ext svc);
     Sessions.ip := a ← accountability svc; ip a;
     Sessions.user_agent := a ← accountability svc; userAgent a;
     Sessions.share := Some (share_id record) |}.

(** Lines 75-112: what follows a successful verification. *)
Definition issue (svc : SharesService) (record : ShareData) : Async LoginResult :=
  _ ← update_times_used svc (share_times_used record + 1) (share_id record);
  accessToken ← await Jwt (jwt_sign (ext svc) (tokenPayload record));
  _ ← insert_session svc (new_session svc record);
  _ ← delete_expired svc (new_Date (ext svc));
  mret {| accessToken := accessToken;
          refreshToken := nanoid64 (ext svc);
          expires := ACCESS_TOKEN_TTL (ext svc) |}.

Definition login (svc : SharesService) (payload : Payload.login) : Async LoginResult :=
  record ← verify svc payload;
  issue svc record.

(** ** The worlds [login] can leave behind: after the update, after the insert
    and after the sweep. *)

Definition after_update (record : ShareData) (w : World) : World :=
  {| directus_shares :=
       updated (share_times_used record + 1) (share_id record) (directus_shares w);
     directus_sessions := directus_sessions w;
     outbox := outbox w |}.

Definition after_insert (svc : SharesService) (record : ShareData) (w : World) : World :=
  {| directus_shares :=
       updated (share_times_used record + 1) (share_id record) (directus_shares w);
     directus_sessions := directus_sessions w ++ [new_session svc record];
     outbox := outbox w |}.

Definition after_sweep (svc : SharesService) (record : ShareData) (w : World) : World :=
  {| directus_shares :=
       updated (share_times_used record + 1) (share_id record) (directus_shares w);
     directus_sessions :=
       swept (new_Date (ext svc)) (directus_sessions w ++ [new_session svc record]);
     outbox := outbox w |}.

(** ** invite, lines 119-155 *)

Definition nl : string := String (Ascii.ascii_of_nat 10) EmptyString.

(** The template literal of lines 135-141. *)
Definition message (svc : SharesService) (userInfo : UserInfo) (collection share : string) : string :=
  nl +:+ "Hello!" +:+ nl +:+ nl +:+
  userName (ext svc) userInfo +:+ " has invited you to view an item in " +:+ collection +:+ "." +:+
  nl +:+ nl +:+
  "[Open](" +:+ PUBLIC_URL (ext svc) +:+ "/admin/shared/" +:+ share +:+ ")" +:+ nl.

(** [mailService.send]: a dispatched message is appended to the outbox. *)
Definition mail_send (svc : SharesService) (m : Mail) : Async unit :=
  if mail_rejects (ext svc) m then throw (Rejected MailSend)
  else
    w ← get_world;
    put_world
      {| directus_shares := directus_shares w;
         directus_sessions := directus_sessions w;
         outbox := outbox w ++ [m] |}.

(** The loop of lines 143-154: the first rejected send ends it. *)
Fixpoint send_each (svc : SharesService) (mk : string -> Mail) (emails : list string) : Async unit :=
  match emails with
  | [] => mret tt
  | email :: rest => _ ← mail_send svc (mk email); send_each svc mk rest
  end.

Definition invite (svc : SharesService) (payload : Payload.invite) : Async unit :=
  if negb (truthy (a ← accountability svc; user a)) then throw ForbiddenException
  else
    collection ← await ItemsRead (readOne (ext svc) (Payload.invite_share payload));
    userInfo ← await UsersRead
                 (users_readOne (ext svc) (default EmptyString (a ← accountability svc; user a)));
    send_each svc
      (fun email =>
         {| template_name := "base";
            template_html := md (ext svc) (message svc userInfo collection (Payload.invite_share payload));
            to := email;
            subject := userName (ext svc) userInfo +:+ " has shared an item with you" |})
      (Payload.emails payload).

(** ** Concrete instances, for evaluating the service *)

Module Demo.

(** [argon2.verify] with the hash of [p] being [p] behind a fixed prefix.
    Handed no password at all ([undefined]) the library does not answer
    [false]: it throws a TypeError, so the promise rejects. *)
Definition verifier (hash : string) (plain : option string) : Promise bool :=
  match plain with
  | Some p => Resolves (bool_decide (hash = "$argon2id$" +:+ p))
  | None => Rejects
  end.

(** Collaborators that all answer, with verifier [v], over a store that
    rejects the statements [rej] picks; [tok] is the next refresh token and
    [t] the time of the call. *)
Definition externals_of (v : string -> option string -> Promise bool)
    (rej : Statement -> bool) (tok : string) (t : Z) : Externals :=
  {| knex_now := t;
     knex_rejects := rej;
     argon2_verify := v;
     jwt_sign := fun p => Resolves ("jwt:" +:+ Token.share p);
     nanoid64 := tok;
     Date_now := t;
     new_Date := t + 1;
     ACCESS_TOKEN_TTL := 900000;
     REFRESH_TOKEN_TTL := 604800000;
     PUBLIC_URL := "https://example.org";
     readOne := fun _ => Resolves "articles";
     users_readOne := fun u => Resolves {| first_name := None; last_name := None; email := None; user_pk := u |};
     userName := user_pk;
     md := fun s => s;
     mail_rejects := fun _ => false |}.

Definition externals : Externals := externals_of verifier (fun _ => false) "refresh-1" 1000.

Definition browser : Accountability :=
  {| user := None; ip := Some "10.0.0.7"; userAgent := Some "curl/8" |}.

Definition service : SharesService := {| accountability := Some browser; ext := externals |}.

Definition anonymous_service : SharesService := {| accountability := None; ext := externals |}.

(** A signed-in caller. *)
Definition editor_service : SharesService :=
  {| accountability := Some {| user := Some "u1"; ip := None; userAgent := None |};
     ext := externals |}.

(** The same caller, one second later. *)
Definition service_later : SharesService :=
  {| accountability := Some browser;
     ext := externals_of verifier (fun _ => false) "refresh-2" 2000 |}.

(** The same caller, over a store that rejects statement [s]. *)
Definition service_rejecting (s : Statement) : SharesService :=
  {| accountability := Some browser;
     ext := externals_of verifier (fun s' => bool_decide (s' = s)) "refresh-1" 1000 |}.

(** The share of the scenario: one use allowed, none made, no password. *)
Definition s1 : Shares.row :=
  Shares.Row "s1" "viewer" "42" "articles" None None 0 (Some 1) None.

(** A share protected by the password [secret]. *)
Definition s2 : Shares.row :=
  Shares.Row "s2" "viewer" "7" "articles" (Some 0) (Some 5000) 3 None (Some "$argon2id$secret").

(** A share whose stored password is the empty string. *)
Definition s3 : Shares.row :=
  Shares.Row "s3" "viewer" "8" "articles" None None 0 None (Some "").

(** A share whose window has closed. *)
Definition s4 : Shares.row :=
  Shares.Row "s4" "viewer" "9" "articles" None (Some 999) 0 None None.

Definition stale : Sessions.row := Sessions.Row "old" 500 None None None.

Definition fresh : Sessions.row := Sessions.Row "live" 2000 None None (Some "s2").

Definition world : World :=
  {| directus_shares := [s1; s2; s3; s4];
     directus_sessions := [stale; fresh];
     outbox := [] |}.

End Demo.

(** ** Notions the further properties are stated with *)

(** The argument of [mailService.send] for one recipient, lines 144-153. *)
Definition invitation (svc : SharesService) (userInfo : UserInfo)
    (collection share email : string) : Mail :=
  {| template_name := "base";
     template_html := md (ext svc) (message svc userInfo collection share);
     to := email;
     subject := userName (ext svc) userInfo +:+ " has shared an item with you" |}.

(** The world with the messages [ms] dispatched after those of [w]. *)
Definition dispatched (ms : list Mail) (w : World) : World :=
  {| directus_shares := directus_shares w;
     directus_sessions := directus_sessions w;
     outbox := outbox w ++ ms |}.

(** No share with a quota has been used more than once beyond it. *)
Definition quota_bound (tbl : list Shares.row) : Prop :=
  ∀ r m, r ∈ tbl → Shares.max_uses r = Some m → Shares.times_used r ≤ m + 1.

(** [id] is a primary key of the share table. *)
Definition primary_key (tbl : list Shares.row) : Prop := NoDup (Shares.id <$> tbl).

(** Further concrete instances: collaborators of [invite] that fail, and a
    refresh TTL that is negative. *)
Module Cases.

Definition externals_of (ttl : Z) (share_read : string -> Promise string)
    (user_read : string -> Promise UserInfo) (bad : Mail -> bool) : Externals :=
  {| knex_now := 1000;
     knex_rejects := fun _ => false;
     argon2_verify := Demo.verifier;
     jwt_sign := fun p => Resolves ("jwt:" +:+ Token.share p);
     nanoid64 := "refresh-9";
     Date_now := 1000;
     new_Date := 1001;
     ACCESS_TOKEN_TTL := 900000;
     REFRESH_TOKEN_TTL := ttl;
     PUBLIC_URL := "https://example.org";
     readOne := share_read;
     users_readOne := user_read;
     userName := user_pk;
     md := fun s => s;
     mail_rejects := bad |}.

Definition some_user (u : string) : Promise UserInfo :=
  Resolves {| first_name := None; last_name := None; email := None; user_pk := u |}.

Definition signed_in : option Accountability :=
  Some {| user := Some "u1"; ip := None; userAgent := None |}.

(** Every collaborator answers. *)
Definition editor : SharesService :=
  {| accountability := signed_in;
     ext := externals_of 604800000 (fun _ => Resolves "articles") some_user (fun _ => false) |}.

(** The mail service rejects the message to [b@example.org]. *)
Definition editor_bounced : SharesService :=
  {| accountability := signed_in;
     ext := externals_of 604800000 (fun _ => Resolves "articles") some_user
              (fun m => bool_decide (to m = "b@example.org")) |}.

(** The caller may not read the share. *)
Definition editor_unreadable : SharesService :=
  {| accountability := signed_in;
     ext := externals_of 604800000 (fun _ => Rejects) some_user (fun _ => false) |}.

(** The refresh TTL is minus one second. *)
Definition negative_ttl : SharesService :=
  {| accountability := Some Demo.browser;
     ext := externals_of (-1000) (fun _ => Resolves "articles") some_user (fun _ => false) |}.

Definition three : Payload.invite :=
  {| Payload.emails := ["a@example.org"; "b@example.org"; "c@example.org"];
     Payload.invite_share := "s1" |}.

End Cases.

(** * Properties *)

(** ** How each part of [login] runs *)

Ltac run := unfold mbind, Async_bind, mret, Async_ret, throw, get_world, put_world, await; simpl.

Lemma statement_run svc s w :
  statement svc s w =
    if knex_rejects (ext svc) s then (Throws (Rejected Knex), w) else (Returns tt, w).
Proof. unfold statement. by destruct (knex_rejects (ext svc) s). Qed.

Lemma select_share_run svc pk w :
  select_share svc pk w =
    if knex_rejects (ext svc) SelectShare then (Throws (Rejected Knex), w)
    else (Returns (select_columns <$> first_row (knex_now (ext svc)) pk (directus_shares w)), w).
Proof.
  unfold select_share. run. rewrite statement_run.
  by destruct (knex_rejects (ext svc) SelectShare).
Qed.

(** The verification, case by case. *)
Lemma verify_run svc p w :
  verify svc p w =
    if knex_rejects (ext svc) SelectShare then (Throws (Rejected Knex), w)
    else
      match first_row (knex_now (ext svc)) (Payload.share p) (directus_shares w) with
      | None => (Throws InvalidCredentialsException, w)
      | Some r =>
          if truthy (Shares.password r) then
            match argon2_verify (ext svc) (default EmptyString (Shares.password r))
                    (Payload.password p) with
            | Resolves true => (Returns (select_columns r), w)
            | Resolves false => (Throws InvalidCredentialsException, w)
            | Rejects => (Throws (Rejected Argon2), w)
            end
          else (Returns (select_columns r), w)
      end.
Proof.
  unfold verify. unfold mbind at 1. unfold Async_bind. rewrite select_share_run.
  destruct (knex_rejects (ext svc) SelectShare); [done|].
  destruct (first_row _ _ _) as [r|]; simpl; [|done].
  destruct (truthy (Shares.password r)); [|done].
  run. by destruct (argon2_verify _ _ _) as [[]|].
Qed.

(** The steps after verification, case by case: a step that fails leaves
    what the earlier steps wrote. *)
Lemma issue_run svc record w :
  issue svc record w =
    if knex_rejects (ext svc) UpdateShare then (Throws (Rejected Knex), w)
    else
      match jwt_sign (ext svc) (tokenPayload record) with
      | Rejects => (Throws (Rejected Jwt), after_update record w)
      | Resolves t =>
          if knex_rejects (ext svc) InsertSession
          then (Throws (Rejected Knex), after_update record w)
          else if knex_rejects (ext svc) DeleteSessions
          then (Throws (Rejected Knex), after_insert svc record w)
          else (Returns {| accessToken := t;
                           refreshToken := nanoid64 (ext svc);
                           expires := ACCESS_TOKEN_TTL (ext svc) |},
                after_sweep svc record w)
      end.
Proof.
  unfold issue, update_times_used, insert_session, delete_expired. run.
  rewrite !statement_run.
  destruct (knex_rejects (ext svc) UpdateShare); [done|]. simpl.
  destruct (jwt_sign _ _) as [t|]; [|done]. simpl.
  rewrite !statement_run.
  destruct (knex_rejects (ext svc) InsertSession); [done|]. simpl.
  rewrite !statement_run.
  by destruct (knex_rejects (ext svc) DeleteSessions).
Qed.

Lemma login_run svc p w :
  login svc p w =
    match verify svc p w with
    | (Returns record, w') => issue svc record w'
    | (Throws e, w') => (Throws e, w')
    end.
Proof. reflexivity. Qed.

(** Verification never writes. *)
Lemma verify_pure svc p w o w' : verify svc p w = (o, w') → w' = w.
Proof.
  rewrite verify_run. intros H.
  repeat match type of H with
         | context [if ?b then _ else _] => destruct b
         | context [match ?x with _ => _ end] => destruct x
         end; congruence.
Qed.

(** What a verification that returns has established. *)
Lemma verify_returns svc p w record w' :
  verify svc p w = (Returns record, w') →
  ∃ r, first_row (knex_now (ext svc)) (Payload.share p) (directus_shares w) = Some r
       ∧ record = select_columns r ∧ w' = w
       ∧ knex_rejects (ext svc) SelectShare = false.
Proof.
  rewrite verify_run. intros H.
  destruct (knex_rejects (ext svc) SelectShare); [done|].
  destruct (first_row _ _ _) as [r|]; [|done].
  exists r.
  destruct (truthy _); [destruct (argon2_verify _ _ _) as [[]|]|];
    simplify_eq; done.
Qed.

(** ** The select *)

Lemma first_row_Some now pk tbl r :
  first_row now pk tbl = Some r → r ∈ tbl ∧ share_where now pk r.
Proof.
  unfold first_row. intros H%head_Some_elem_of.
  apply list_elem_of_filter in H. tauto.
Qed.

Lemma first_row_None now pk tbl :
  first_row now pk tbl = None ↔ ∀ r, r ∈ tbl → ¬ share_where now pk r.
Proof.
  unfold first_row. rewrite head_None. split.
  - intros H r Hr Hw. by eapply filter_nil_not_elem_of.
  - intros H. induction tbl as [|x tbl IH]; [done|].
    rewrite filter_cons_False by (apply H; left).
    apply IH. intros r Hr. apply H. by right.
Qed.

(** With [id] a primary key, the select returns the one row of that id, when
    that row passes the where-clause. *)
Lemma first_row_primary_key now pk tbl r :
  NoDup (Shares.id <$> tbl) → r ∈ tbl → share_where now pk r →
  first_row now pk tbl = Some r.
Proof.
  unfold first_row. intros Hnd Hr Hw.
  induction tbl as [|x tbl IH]; [by apply not_elem_of_nil in Hr|].
  rewrite fmap_cons in Hnd. apply NoDup_cons in Hnd as [Hx Hnd].
  apply elem_of_cons in Hr as [->|Hr].
  - by rewrite filter_cons_True.
  - rewrite filter_cons_False; [by apply IH|].
    intros [Hid _]. apply Hx. rewrite Hid, <- (proj1 Hw).
    by apply list_elem_of_fmap_2.
Qed.

(** ** What a login that returns tokens has done *)

Lemma issue_returns svc record w res w' :
  issue svc record w = (Returns res, w') →
  w' = after_sweep svc record w
  ∧ jwt_sign (ext svc) (tokenPayload record) = Resolves (accessToken res)
  ∧ refreshToken res = nanoid64 (ext svc)
  ∧ expires res = ACCESS_TOKEN_TTL (ext svc)
  ∧ knex_rejects (ext svc) UpdateShare = false
  ∧ knex_rejects (ext svc) InsertSession = false
  ∧ knex_rejects (ext svc) DeleteSessions = false.
Proof.
  rewrite issue_run. intros H.
  destruct (knex_rejects (ext svc) UpdateShare); [done|].
  destruct (jwt_sign _ _) as [t|]; [|done].
  destruct (knex_rejects (ext svc) InsertSession); [done|].
  destruct (knex_rejects (ext svc) DeleteSessions); [done|].
  by simplify_eq.
Qed.

Lemma login_returns svc p w res w' :
  login svc p w = (Returns res, w') →
  ∃ r, first_row (knex_now (ext svc)) (Payload.share p) (directus_shares w) = Some r
       ∧ verify svc p w = (Returns (select_columns r), w)
       ∧ issue svc (select_columns r) w = (Returns res, w')
       ∧ w' = after_sweep svc (select_columns r) w.
Proof.
  rewrite login_run. intros H.
  destruct (verify svc p w) as [[record|e] w1] eqn:Hv; [|done].
  destruct (verify_returns _ _ _ _ _ Hv) as (r & Hr & -> & -> & _).
  exists r. split_and!; [done..|].
  by apply issue_returns in H as [-> _].
Qed.

(** ** The quota *)

(** The quota predicate still holds for a share used exactly [max_uses]
    times. *)
Remark uses_ok_at_quota r n :
  Shares.max_uses r = Some n → Shares.times_used r = n → uses_ok r.
Proof. unfold uses_ok. intros -> ->. done. Qed.

(** C1. The scenario of the claim, evaluated: for the share
    [{id: "s1", max_uses: 1, times_used: 0, password: null}] the first login
    returns tokens and leaves [times_used = 1 = max_uses]; a second login
    with the same id does not fail with InvalidCredentials: the where-clause
    asks [max_uses >= times_used], so it returns tokens again and leaves
    [times_used = 2]; only the third login is refused. *)
Theorem login_accepts_share_at_quota :
  let p := {| Payload.share := "s1"; Payload.password := None |} in
  ∃ res1 w1 res2 w2,
    login Demo.service p Demo.world = (Returns res1, w1)
    ∧ directus_shares w1 !! 0%nat = Some (set_times_used 1 Demo.s1)
    ∧ login Demo.service_later p w1 = (Returns res2, w2)
    ∧ refreshToken res2 = "refresh-2"
    ∧ directus_shares w2 !! 0%nat = Some (set_times_used 2 Demo.s1)
    ∧ login Demo.service_later p w2 = (Throws InvalidCredentialsException, w2).
Proof.
  intros p. eexists _, _, _, _.
  split; [vm_compute; reflexivity|].
  split; [reflexivity|].
  split; [vm_compute; reflexivity|].
  split; [reflexivity|].
  split; [reflexivity|].
  vm_compute. reflexivity.
Qed.

(** ** The password check *)

(** A stored password that is null or the empty string is never checked:
    [record.share_password && ...] stops at the first operand. *)
Lemma verify_unchecked svc p w r :
  knex_rejects (ext svc) SelectShare = false →
  first_row (knex_now (ext svc)) (Payload.share p) (directus_shares w) = Some r →
  truthy (Shares.password r) = false →
  verify svc p w = (Returns (select_columns r), w).
Proof. intros Hk Hr Ht. by rewrite verify_run, Hk, Hr, Ht. Qed.

(** A stored password that is checked leaves the verdict to the verifier. *)
Lemma verify_checked svc p w r :
  knex_rejects (ext svc) SelectShare = false →
  first_row (knex_now (ext svc)) (Payload.share p) (directus_shares w) = Some r →
  truthy (Shares.password r) = true →
  verify svc p w =
    match argon2_verify (ext svc) (default EmptyString (Shares.password r)) (Payload.password p) with
    | Resolves true => (Returns (select_columns r), w)
    | Resolves false => (Throws InvalidCredentialsException, w)
    | Rejects => (Throws (Rejected Argon2), w)
    end.
Proof. intros Hk Hr Ht. by rewrite verify_run, Hk, Hr, Ht. Qed.

(** A stored password that is checked and an absent supplied password:
    login does what [argon2.verify] does with [undefined]. It fails with
    InvalidCredentials only if the verifier resolves to [false]; a verifier
    that rejects makes login throw that rejection, which it does not catch.
    Either way nothing is written. *)
Lemma login_absent_password svc w r pk hash :
  knex_rejects (ext svc) SelectShare = false →
  NoDup (Shares.id <$> directus_shares w) →
  r ∈ directus_shares w →
  share_where (knex_now (ext svc)) pk r →
  Shares.password r = Some hash →
  hash ≠ EmptyString →
  let p := {| Payload.share := pk; Payload.password := None |} in
  (argon2_verify (ext svc) hash None = Rejects →
   login svc p w = (Throws (Rejected Argon2), w))
  ∧ (argon2_verify (ext svc) hash None = Resolves false →
     login svc p w = (Throws InvalidCredentialsException, w)).
Proof.
  intros Hk Hnd Hr Hw Hp Hne p.
  pose proof (first_row_primary_key _ _ _ _ Hnd Hr Hw) as Hfirst.
  assert (truthy (Shares.password r) = true) as Ht by (rewrite Hp; by destruct hash).
  rewrite login_run, (verify_checked svc p w r) by done.
  rewrite Hp. simpl. split; by intros ->.
Qed.

(** C2. The case of the claim, evaluated. Share [s2] stores a non-empty
    hash and passes the window and quota predicates; the caller supplies no
    password. Login does not fail with InvalidCredentials: line 71 hands the
    absent password to [argon2.verify], which rejects it, and login, which
    catches nothing, throws the verifier's error. Nothing is written. *)
Theorem login_absent_password_throws_verifier_error :
  Shares.password Demo.s2 = Some "$argon2id$secret"
  ∧ Demo.s2 ∈ directus_shares Demo.world
  ∧ share_where (knex_now (ext Demo.service)) "s2" Demo.s2
  ∧ login Demo.service {| Payload.share := "s2"; Payload.password := None |} Demo.world
    = (Throws (Rejected Argon2), Demo.world)
  ∧ Rejected Argon2 ≠ InvalidCredentialsException.
Proof.
  split_and!.
  - reflexivity.
  - apply list_elem_of_further, list_elem_of_here.
  - vm_compute. intuition discriminate.
  - apply (login_absent_password Demo.service Demo.world Demo.s2 "s2" "$argon2id$secret");
      [reflexivity
      |apply (bool_decide_unpack _); vm_compute; exact I
      |apply list_elem_of_further, list_elem_of_here
      |vm_compute; intuition discriminate
      |reflexivity
      |discriminate
      |reflexivity].
  - discriminate.
Qed.

(** The guard of line 71 is a truthiness test: a stored password that is
    not null but the empty string is not checked either, and a login without
    a password returns tokens. *)
Example login_empty_stored_password :
  Shares.password Demo.s3 = Some EmptyString
  ∧ Demo.s3 ∈ directus_shares Demo.world
  ∧ fst (login Demo.service {| Payload.share := "s3"; Payload.password := None |} Demo.world)
    = Returns {| accessToken := "jwt:s3"; refreshToken := "refresh-1"; expires := 900000 |}.
Proof.
  split; [done|]. split; [|by vm_compute].
  unfold Demo.world; simpl. do 2 apply list_elem_of_further. apply list_elem_of_here.
Qed.

(** C8. For a share whose stored password is null and which passes the
    window and quota predicates, verification returns the share's record
    whatever password is supplied, the empty string and none included. *)
Theorem verify_null_password svc w r pk (supplied : option string) :
  knex_rejects (ext svc) SelectShare = false →
  NoDup (Shares.id <$> directus_shares w) →
  r ∈ directus_shares w →
  Shares.id r = pk →
  end_ok (knex_now (ext svc)) r →
  start_ok (knex_now (ext svc)) r →
  uses_ok r →
  Shares.password r = None →
  verify svc {| Payload.share := pk; Payload.password := supplied |} w
  = (Returns (select_columns r), w).
Proof.
  intros Hk Hnd Hr Hid He Hs Hu Hp.
  apply verify_unchecked; [done| |by rewrite Hp].
  by apply first_row_primary_key.
Qed.

Lemma verify_null_password_witness :
  verify Demo.service {| Payload.share := "s1"; Payload.password := Some EmptyString |} Demo.world
  = (Returns (select_columns Demo.s1), Demo.world)
  ∧ verify Demo.service {| Payload.share := "s1"; Payload.password := None |} Demo.world
    = (Returns (select_columns Demo.s1), Demo.world)
  ∧ verify Demo.service {| Payload.share := "s1"; Payload.password := Some "anything" |} Demo.world
    = (Returns (select_columns Demo.s1), Demo.world).
Proof.
  split_and!;
    apply (verify_null_password Demo.service Demo.world Demo.s1 "s1");
    solve [ reflexivity
          | apply (bool_decide_unpack _); vm_compute; exact I
          | apply list_elem_of_here
          | vm_compute; intuition discriminate ].
Defined.

(** ** The three predicates of the select *)

(** C3. Verification returns a record only for a row of the requested id
    that passes all three predicates at once (end of window, start of
    window, quota), and so does login return tokens only then; when no row of
    that id passes all three, in particular when no row has that id, login
    fails with InvalidCredentials and writes nothing. *)
Theorem login_accepts_only_where svc p w :
  let now := knex_now (ext svc) in
  (∀ record w', verify svc p w = (Returns record, w') →
     ∃ r, r ∈ directus_shares w ∧ record = select_columns r
          ∧ Shares.id r = Payload.share p
          ∧ end_ok now r ∧ start_ok now r ∧ uses_ok r)
  ∧ (∀ res w', login svc p w = (Returns res, w') →
     ∃ r, r ∈ directus_shares w
          ∧ Shares.id r = Payload.share p
          ∧ end_ok now r ∧ start_ok now r ∧ uses_ok r)
  ∧ (knex_rejects (ext svc) SelectShare = false →
     (∀ r, r ∈ directus_shares w → Shares.id r = Payload.share p →
           ¬ (end_ok now r ∧ start_ok now r ∧ uses_ok r)) →
     login svc p w = (Throws InvalidCredentialsException, w)).
Proof.
  intros now. split_and!.
  - intros record w' Hv.
    destruct (verify_returns _ _ _ _ _ Hv) as (r & Hr & -> & _).
    apply first_row_Some in Hr as [Hin (Hid & He & Hs & Hu)]. by exists r.
  - intros res w' Hl.
    destruct (login_returns _ _ _ _ _ Hl) as (r & Hr & _).
    apply first_row_Some in Hr as [Hin (Hid & He & Hs & Hu)]. by exists r.
  - intros Hk Hnone.
    assert (first_row now (Payload.share p) (directus_shares w) = None) as Hfirst.
    { apply first_row_None. intros r Hr [Hid Hrest]. by apply (Hnone r). }
    rewrite login_run, verify_run, Hk. fold now. by rewrite Hfirst.
Qed.

Lemma login_accepts_only_where_witness :
  (∃ r, r ∈ directus_shares Demo.world ∧ Shares.id r = "s2"
        ∧ end_ok 1000 r ∧ start_ok 1000 r ∧ uses_ok r)
  ∧ login Demo.service {| Payload.share := "s4"; Payload.password := None |} Demo.world
    = (Throws InvalidCredentialsException, Demo.world)
  ∧ login Demo.service {| Payload.share := "nobody"; Payload.password := None |} Demo.world
    = (Throws InvalidCredentialsException, Demo.world).
Proof.
  split_and!.
  - destruct (login_accepts_only_where Demo.service
                {| Payload.share := "s2"; Payload.password := Some "secret" |} Demo.world)
      as (_ & Hl & _).
    eapply Hl. vm_compute. reflexivity.
  - apply (login_accepts_only_where Demo.service
             {| Payload.share := "s4"; Payload.password := None |} Demo.world);
      [reflexivity|].
    intros r Hr Hid (He & _). revert Hr Hid He.
    change (directus_shares Demo.world) with [Demo.s1; Demo.s2; Demo.s3; Demo.s4].
    rewrite !elem_of_cons, elem_of_nil.
    intros [->|[->|[->|[->|[]]]]]; vm_compute; try discriminate.
    intros _ H. by apply H.
  - apply (login_accepts_only_where Demo.service
             {| Payload.share := "nobody"; Payload.password := None |} Demo.world);
      [reflexivity|].
    intros r Hr Hid _. revert Hr Hid.
    change (directus_shares Demo.world) with [Demo.s1; Demo.s2; Demo.s3; Demo.s4].
    rewrite !elem_of_cons, elem_of_nil.
    intros [->|[->|[->|[->|[]]]]]; vm_compute; discriminate.
Defined.

(** ** Failed verification *)

(** C6. A login that fails verification, for whatever reason (no row of
    that id passes the select, or the password check fails), ends there: it
    throws what verification threw and the store, shares and sessions alike,
    is what it was before the call. *)
Theorem login_failed_verification_writes_nothing svc p w e w1 :
  verify svc p w = (Throws e, w1) →
  login svc p w = (Throws e, w)
  ∧ directus_shares (snd (login svc p w)) = directus_shares w
  ∧ directus_sessions (snd (login svc p w)) = directus_sessions w.
Proof.
  intros Hv. pose proof (verify_pure _ _ _ _ _ Hv) as ->.
  assert (login svc p w = (Throws e, w)) as Hl by (by rewrite login_run, Hv).
  by rewrite Hl.
Qed.

Lemma login_failed_verification_writes_nothing_witness :
  login Demo.service {| Payload.share := "s2"; Payload.password := Some "guess" |} Demo.world
  = (Throws InvalidCredentialsException, Demo.world)
  ∧ login Demo.service {| Payload.share := "s4"; Payload.password := None |} Demo.world
    = (Throws InvalidCredentialsException, Demo.world).
Proof.
  split.
  - eapply (login_failed_verification_writes_nothing Demo.service
              {| Payload.share := "s2"; Payload.password := Some "guess" |} Demo.world).
    vm_compute. reflexivity.
  - eapply (login_failed_verification_writes_nothing Demo.service
              {| Payload.share := "s4"; Payload.password := None |} Demo.world).
    vm_compute. reflexivity.
Defined.

(** ** The sweep of expired sessions *)

(** C4, as stated, fails: a login that fails verification deletes nothing.
    The session [stale] expired at 500, the failed login runs at 1000, and
    [stale] is still in the table afterwards. *)
Lemma failed_login_sweeps_nothing :
  let attempt :=
    login Demo.service {| Payload.share := "nobody"; Payload.password := None |} Demo.world in
  fst attempt = Throws InvalidCredentialsException
  ∧ Sessions.expires Demo.stale < new_Date (ext Demo.service)
  ∧ Demo.stale ∈ directus_sessions (snd attempt).
Proof.
  split_and!; [by vm_compute|by vm_compute|].
  vm_compute. apply list_elem_of_here.
Qed.

(** C4, amended. A login that returns tokens deletes every session row,
    of whatever share, whose [expires] is strictly before the clock read at
    the sweep, and every row whose [expires] has not passed survives. A login
    that throws, at verification or at any later step, deletes no session:
    the table afterwards is the old table, with at most rows appended. *)
Theorem login_success_sweeps_expired svc p w :
  let d := new_Date (ext svc) in
  (∀ res w', login svc p w = (Returns res, w') →
     (∀ s, s ∈ directus_sessions w' → ¬ Sessions.expires s < d)
     ∧ (∀ s, s ∈ directus_sessions w → Sessions.expires s < d → s ∉ directus_sessions w')
     ∧ (∀ s, s ∈ directus_sessions w → ¬ Sessions.expires s < d → s ∈ directus_sessions w'))
  ∧ (∀ e w', login svc p w = (Throws e, w') →
     (∃ added, directus_sessions w' = directus_sessions w ++ added)
     ∧ (∀ s, s ∈ directus_sessions w → s ∈ directus_sessions w')).
Proof.
  intros d. split.
  - intros res w' Hl.
    destruct (login_returns _ _ _ _ _ Hl) as (r & _ & _ & _ & ->).
    unfold after_sweep, swept; simpl. fold d.
    assert (∀ s, s ∈ filter (λ s, ¬ Sessions.expires s < d)
                       (directus_sessions w ++ [new_session svc (select_columns r)]) →
                 ¬ Sessions.expires s < d) as Hkept.
    { intros s Hs. by apply list_elem_of_filter in Hs as [? _]. }
    split_and!.
    + exact Hkept.
    + intros s _ Hexp Hs. by apply (Hkept s).
    + intros s Hs Hlive. apply list_elem_of_filter. split; [done|].
      apply elem_of_app. by left.
  - intros e w' Hl.
    assert (∃ added, directus_sessions w' = directus_sessions w ++ added) as [added Hadded].
    { assert (∃ added, directus_sessions w = directus_sessions w ++ added) as Hsame
        by (exists []; by rewrite app_nil_r).
      rewrite login_run, verify_run in Hl.
      destruct (knex_rejects (ext svc) SelectShare); [by simplify_eq|].
      destruct (first_row _ _ _) as [r|]; [|by simplify_eq].
      assert (issue svc (select_columns r) w = (Throws e, w') →
              ∃ added, directus_sessions w' = directus_sessions w ++ added) as Hissue.
      { rewrite issue_run. intros Hi.
        destruct (knex_rejects (ext svc) UpdateShare); [by simplify_eq|].
        destruct (jwt_sign _ _) as [t|]; [|by simplify_eq].
        destruct (knex_rejects (ext svc) InsertSession); [by simplify_eq|].
        destruct (knex_rejects (ext svc) DeleteSessions); [|done].
        simplify_eq. simpl. by eexists. }
      destruct (truthy (Shares.password r));
        [destruct (argon2_verify _ _ _) as [[]|]|]; try (by simplify_eq); by apply Hissue. }
    split; [by exists added|].
    intros s Hs. rewrite Hadded. apply elem_of_app. by left.
Qed.

Lemma login_success_sweeps_expired_witness :
  let w' :=
    snd (login Demo.service {| Payload.share := "s1"; Payload.password := None |} Demo.world) in
  let w'' :=
    snd (login (Demo.service_rejecting DeleteSessions)
           {| Payload.share := "s1"; Payload.password := None |} Demo.world) in
  (Demo.stale ∉ directus_sessions w') ∧ (Demo.fresh ∈ directus_sessions w')
  ∧ (Demo.stale ∈ directus_sessions w'').
Proof.
  intros w' w''. split_and!.
  - destruct (login_success_sweeps_expired Demo.service
                {| Payload.share := "s1"; Payload.password := None |} Demo.world)
      as [Hswept _].
    destruct (Hswept {| accessToken := "jwt:s1"; refreshToken := "refresh-1"; expires := 900000 |}
                w') as (_ & Hgone & _); [by vm_compute|].
    apply Hgone; [apply list_elem_of_here|by vm_compute].
  - destruct (login_success_sweeps_expired Demo.service
                {| Payload.share := "s1"; Payload.password := None |} Demo.world)
      as [Hswept _].
    destruct (Hswept {| accessToken := "jwt:s1"; refreshToken := "refresh-1"; expires := 900000 |}
                w') as (_ & _ & Hkept); [by vm_compute|].
    apply Hkept; [apply list_elem_of_further, list_elem_of_here|by vm_compute].
  - destruct (login_success_sweeps_expired (Demo.service_rejecting DeleteSessions)
                {| Payload.share := "s1"; Payload.password := None |} Demo.world)
      as [_ Hthrown].
    destruct (Hthrown (Rejected Knex) w'') as [_ Hall]; [by vm_compute|].
    apply Hall. apply list_elem_of_here.
Defined.

(** ** Failure after verification *)

(** C5. When a step after a successful verification fails (the store
    rejects the update, the insert or the delete, or signing fails), login
    throws that collaborator's rejection and returns no tokens. Conversely,
    when login returns tokens the insert was not rejected: the session row
    carrying the returned refresh token was written, and it is in the table
    after the call unless it was already expired at the sweep. *)
Theorem login_failed_step_returns_no_tokens svc p w record w1 :
  verify svc p w = (Returns record, w1) →
  (knex_rejects (ext svc) UpdateShare = true
   ∨ jwt_sign (ext svc) (tokenPayload record) = Rejects
   ∨ knex_rejects (ext svc) InsertSession = true
   ∨ knex_rejects (ext svc) DeleteSessions = true →
   ∃ who w', login svc p w = (Throws (Rejected who), w'))
  ∧ (∀ res w', login svc p w = (Returns res, w') →
       knex_rejects (ext svc) InsertSession = false
       ∧ Sessions.token (new_session svc record) = refreshToken res
       ∧ (¬ Sessions.expires (new_session svc record) < new_Date (ext svc) →
          new_session svc record ∈ directus_sessions w')).
Proof.
  intros Hv. pose proof (verify_pure _ _ _ _ _ Hv) as ->.
  rewrite login_run, Hv, issue_run. split.
  - intros Hfail.
    destruct (knex_rejects (ext svc) UpdateShare); [by eexists _, _|].
    destruct (jwt_sign _ _) as [t|]; [|by eexists _, _].
    destruct (knex_rejects (ext svc) InsertSession); [by eexists _, _|].
    destruct (knex_rejects (ext svc) DeleteSessions); [by eexists _, _|].
    by destruct Hfail as [?|[?|[?|?]]].
  - intros res w' H.
    destruct (knex_rejects (ext svc) UpdateShare); [done|].
    destruct (jwt_sign _ _) as [t|]; [|done].
    destruct (knex_rejects (ext svc) InsertSession); [done|].
    destruct (knex_rejects (ext svc) DeleteSessions); [done|].
    simplify_eq. split_and!; [done..|].
    intros Hlive. unfold after_sweep, swept; simpl.
    apply list_elem_of_filter. split; [done|].
    apply elem_of_app. right. apply list_elem_of_here.
Qed.

Lemma login_failed_step_returns_no_tokens_witness :
  ∃ who w',
    login (Demo.service_rejecting InsertSession)
      {| Payload.share := "s1"; Payload.password := None |} Demo.world
    = (Throws (Rejected who), w').
Proof.
  eapply (login_failed_step_returns_no_tokens (Demo.service_rejecting InsertSession)
            {| Payload.share := "s1"; Payload.password := None |} Demo.world).
  - vm_compute. reflexivity.
  - right; right; left. reflexivity.
Defined.

(** A failed insert leaves the counter incremented: nothing is rolled back. *)
Example login_failed_insert_keeps_increment :
  let attempt :=
    login (Demo.service_rejecting InsertSession)
      {| Payload.share := "s1"; Payload.password := None |} Demo.world in
  fst attempt = Throws (Rejected Knex)
  ∧ directus_shares (snd attempt) !! 0%nat = Some (set_times_used 1 Demo.s1)
  ∧ directus_sessions (snd attempt) = directus_sessions Demo.world.
Proof. by vm_compute. Qed.

(** ** The writes of a successful login *)

Lemma updated_lookup v pk (tbl : list Shares.row) (i : nat) :
  updated v pk tbl !! i
  = (fun r => if decide (Shares.id r = pk) then set_times_used v r else r) <$> tbl !! i.
Proof. unfold updated. apply list_lookup_fmap. Qed.

Lemma updated_elem_of v pk (tbl : list Shares.row) x :
  x ∈ updated v pk tbl →
  ∃ r, r ∈ tbl ∧ x = if decide (Shares.id r = pk) then set_times_used v r else r.
Proof.
  unfold updated. intros (r & -> & Hr)%list_elem_of_fmap. by exists r.
Qed.

(** C7. A login that returns tokens sets [times_used] of the share to the
    value the select read plus one, and inserts one session row: its token
    is the returned refresh token, its [expires] is [Date.now()] plus the
    refresh TTL, its [share] is the verified share's id, and its [ip] and
    [user_agent] are those of the caller's accountability. The sessions
    after the call are the old ones and that one row, less the expired; the
    new row is among them when it has not expired by the sweep. *)
Theorem login_success_writes svc p w res w' :
  login svc p w = (Returns res, w') →
  ∃ r s,
    first_row (knex_now (ext svc)) (Payload.share p) (directus_shares w) = Some r
    ∧ r ∈ directus_shares w
    ∧ Shares.id r = Payload.share p
    ∧ set_times_used (Shares.times_used r + 1) r ∈ directus_shares w'
    ∧ (∀ x, x ∈ directus_shares w' → Shares.id x = Shares.id r →
            Shares.times_used x = Shares.times_used r + 1)
    ∧ directus_sessions w' = swept (new_Date (ext svc)) (directus_sessions w ++ [s])
    ∧ (∀ x, x ∈ directus_sessions w' → x ∈ directus_sessions w ∨ x = s)
    ∧ (¬ Sessions.expires s < new_Date (ext svc) → s ∈ directus_sessions w')
    ∧ Sessions.token s = refreshToken res
    ∧ Sessions.expires s = Date_now (ext svc) + REFRESH_TOKEN_TTL (ext svc)
    ∧ Sessions.share s = Some (Shares.id r)
    ∧ Sessions.ip s = (a ← accountability svc; ip a)
    ∧ Sessions.user_agent s = (a ← accountability svc; userAgent a).
Proof.
  intros Hl.
  destruct (login_returns _ _ _ _ _ Hl) as (r & Hfirst & _ & Hi & ->).
  apply issue_returns in Hi as (_ & _ & Htok & _).
  destruct (first_row_Some _ _ _ _ Hfirst) as [Hr [Hid _]].
  exists r, (new_session svc (select_columns r)).
  split_and!; try done; simpl.
  - apply list_elem_of_fmap. exists r. split; [|done]. by rewrite decide_True.
  - intros x (y & Hy & ->)%updated_elem_of. by case_decide.
  - intros x [_ Hx]%list_elem_of_filter.
    apply elem_of_app in Hx as [Hx|Hx]; [by left|right].
    by apply list_elem_of_singleton in Hx.
  - intros Hlive. apply list_elem_of_filter. split; [done|].
    apply elem_of_app. right. apply list_elem_of_here.
Qed.

Lemma login_success_writes_witness :
  ∃ r s,
    first_row 1000 "s2" (directus_shares Demo.world) = Some r
    ∧ r ∈ directus_shares Demo.world
    ∧ Shares.id r = "s2"
    ∧ set_times_used (Shares.times_used r + 1) r
      ∈ directus_shares (after_sweep Demo.service (select_columns Demo.s2) Demo.world)
    ∧ (∀ x, x ∈ directus_shares (after_sweep Demo.service (select_columns Demo.s2) Demo.world) →
            Shares.id x = Shares.id r → Shares.times_used x = Shares.times_used r + 1)
    ∧ directus_sessions (after_sweep Demo.service (select_columns Demo.s2) Demo.world)
      = swept 1001 (directus_sessions Demo.world ++ [s])
    ∧ (∀ x, x ∈ directus_sessions (after_sweep Demo.service (select_columns Demo.s2) Demo.world) →
            x ∈ directus_sessions Demo.world ∨ x = s)
    ∧ (¬ Sessions.expires s < 1001 →
       s ∈ directus_sessions (after_sweep Demo.service (select_columns Demo.s2) Demo.world))
    ∧ Sessions.token s = "refresh-1"
    ∧ Sessions.expires s = 1000 + 604800000
    ∧ Sessions.share s = Some (Shares.id r)
    ∧ Sessions.ip s = Some "10.0.0.7"
    ∧ Sessions.user_agent s = Some "curl/8".
Proof.
  apply (login_success_writes Demo.service
           {| Payload.share := "s2"; Payload.password := Some "secret" |} Demo.world
           {| accessToken := "jwt:s2"; refreshToken := "refresh-1"; expires := 900000 |}).
  vm_compute. reflexivity.
Defined.

(** C10. A login that returns tokens writes the share table only in the
    [times_used] column of rows whose id is the one requested: the table keeps
    its length and order, every row keeps all its other columns, and a row of
    another id is unchanged altogether. *)
Theorem login_success_frame svc p w res w' :
  login svc p w = (Returns res, w') →
  length (directus_shares w') = length (directus_shares w)
  ∧ ∀ (i : nat) x, directus_shares w !! i = Some x →
      ∃ x', directus_shares w' !! i = Some x'
            ∧ Shares.id x' = Shares.id x
            ∧ Shares.role x' = Shares.role x
            ∧ Shares.item x' = Shares.item x
            ∧ Shares.collection x' = Shares.collection x
            ∧ Shares.date_start x' = Shares.date_start x
            ∧ Shares.date_end x' = Shares.date_end x
            ∧ Shares.max_uses x' = Shares.max_uses x
            ∧ Shares.password x' = Shares.password x
            ∧ (Shares.id x ≠ Payload.share p → x' = x).
Proof.
  intros Hl.
  destruct (login_returns _ _ _ _ _ Hl) as (r & Hfirst & _ & _ & ->).
  destruct (first_row_Some _ _ _ _ Hfirst) as [_ [Hid _]].
  simpl. split; [unfold updated; apply length_fmap|].
  intros i x Hx. rewrite updated_lookup, Hx. simpl.
  eexists. split; [reflexivity|].
  case_decide as Hc; simpl; split_and!; try done.
  intros Hne. by rewrite Hid in Hc.
Qed.

Lemma login_success_frame_witness :
  let w' :=
    snd (login Demo.service {| Payload.share := "s2"; Payload.password := Some "secret" |}
           Demo.world) in
  length (directus_shares w') = 4%nat
  ∧ directus_shares w' !! 0%nat = Some Demo.s1
  ∧ (set_times_used 4 Demo.s2 ∈ directus_shares w').
Proof.
  intros w'.
  destruct (login_success_frame Demo.service
              {| Payload.share := "s2"; Payload.password := Some "secret" |} Demo.world
              {| accessToken := "jwt:s2"; refreshToken := "refresh-1"; expires := 900000 |} w')
    as [Hlen Hrows]; [by vm_compute|].
  split; [exact Hlen|]. split.
  - destruct (Hrows 0%nat Demo.s1 eq_refl) as (x' & Hx' & _ & _ & _ & _ & _ & _ & _ & _ & Hsame).
    rewrite Hx'. f_equal. by apply Hsame.
  - vm_compute. apply list_elem_of_further, list_elem_of_here.
Defined.

(** ** invite *)

(** C9. An invite by a caller without a user identity (no accountability,
    or one whose [user] is missing or empty) throws Forbidden at once: no
    collaborator is consulted and the outbox is what it was. *)
Theorem invite_anonymous_forbidden svc payload w :
  truthy (a ← accountability svc; user a) = false →
  invite svc payload w = (Throws ForbiddenException, w)
  ∧ outbox (snd (invite svc payload w)) = outbox w.
Proof.
  intros Hanon. unfold invite. rewrite Hanon. done.
Qed.

Lemma invite_anonymous_forbidden_witness :
  invite Demo.anonymous_service
    {| Payload.emails := ["a@example.org"; "b@example.org"]; Payload.invite_share := "s1" |}
    Demo.world
  = (Throws ForbiddenException, Demo.world)
  ∧ invite Demo.service
      {| Payload.emails := ["a@example.org"]; Payload.invite_share := "s1" |} Demo.world
    = (Throws ForbiddenException, Demo.world).
Proof.
  split.
  - apply (invite_anonymous_forbidden Demo.anonymous_service). reflexivity.
  - apply (invite_anonymous_forbidden Demo.service). reflexivity.
Defined.

(** A signed-in caller, by contrast, has one message dispatched per
    recipient. *)
Example invite_signed_in_dispatches :
  let attempt :=
    invite Demo.editor_service
      {| Payload.emails := ["a@example.org"; "b@example.org"]; Payload.invite_share := "s1" |}
      Demo.world in
  fst attempt = Returns tt
  ∧ to <$> outbox (snd attempt) = ["a@example.org"; "b@example.org"].
Proof. by vm_compute. Qed.

(** * Further properties of login *)

(** ** Every outcome of a login *)

(** Whatever login answers, the world it leaves is the one it found, or the
    one after the update, after the insert, or after the sweep, for the row
    the select returned. *)
Lemma login_world_cases svc p w :
  snd (login svc p w) = w
  ∨ ∃ r, first_row (knex_now (ext svc)) (Payload.share p) (directus_shares w) = Some r
         ∧ (snd (login svc p w) = after_update (select_columns r) w
            ∨ snd (login svc p w) = after_insert svc (select_columns r) w
            ∨ snd (login svc p w) = after_sweep svc (select_columns r) w).
Proof.
  rewrite login_run, verify_run.
  destruct (knex_rejects (ext svc) SelectShare); [by left|].
  destruct (first_row _ _ _) as [r|] eqn:Hr; [|by left].
  assert (snd (issue svc (select_columns r) w) = w
          ∨ snd (issue svc (select_columns r) w) = after_update (select_columns r) w
          ∨ snd (issue svc (select_columns r) w) = after_insert svc (select_columns r) w
          ∨ snd (issue svc (select_columns r) w) = after_sweep svc (select_columns r) w)
    as Hissue.
  { rewrite issue_run.
    destruct (knex_rejects (ext svc) UpdateShare); [by left|].
    destruct (jwt_sign _ _); [|by right; left].
    destruct (knex_rejects (ext svc) InsertSession); [by right; left|].
    destruct (knex_rejects (ext svc) DeleteSessions); [by right; right; left|].
    by right; right; right. }
  destruct (truthy (Shares.password r));
    [destruct (argon2_verify _ _ _) as [[]|]|]; try (by left);
    (destruct Hissue as [H|H]; [by left|right; by exists r]).
Qed.

Lemma updated_ids v pk tbl : Shares.id <$> updated v pk tbl = Shares.id <$> tbl.
Proof.
  unfold updated. rewrite <- list_fmap_compose. apply list_fmap_ext.
  intros i x _. simpl. by case_decide.
Qed.

Lemma primary_key_inj tbl r r' :
  primary_key tbl → r ∈ tbl → r' ∈ tbl → Shares.id r = Shares.id r' → r = r'.
Proof.
  unfold primary_key. induction tbl as [|x tbl IH]; [by intros _ ?%elem_of_nil|].
  rewrite fmap_cons, NoDup_cons. intros [Hx Hnd] Hr Hr' Hid.
  apply elem_of_cons in Hr as [->|Hr]; apply elem_of_cons in Hr' as [->|Hr'];
    [done| | |by apply IH].
  - exfalso. apply Hx. rewrite Hid. by apply list_elem_of_fmap_2.
  - exfalso. apply Hx. rewrite <- Hid. by apply list_elem_of_fmap_2.
Qed.

(** The share table after any login: untouched, or updated for the row the
    select returned. *)
Lemma login_shares_cases svc p w :
  directus_shares (snd (login svc p w)) = directus_shares w
  ∨ ∃ r, first_row (knex_now (ext svc)) (Payload.share p) (directus_shares w) = Some r
         ∧ directus_shares (snd (login svc p w))
           = updated (Shares.times_used r + 1) (Shares.id r) (directus_shares w).
Proof.
  destruct (login_world_cases svc p w) as [-> | (r & Hr & [-> | [-> | ->]])];
    [by left|(right; by exists r)..].
Qed.

(** X1. Whatever a login answers, it leaves the ids of the share table as
    they were, row by row; in particular [id] stays a primary key. *)
Theorem login_keeps_ids svc p w :
  Shares.id <$> directus_shares (snd (login svc p w)) = Shares.id <$> directus_shares w
  ∧ (primary_key (directus_shares w) → primary_key (directus_shares (snd (login svc p w)))).
Proof.
  assert (Shares.id <$> directus_shares (snd (login svc p w))
          = Shares.id <$> directus_shares w) as Hids.
  { destruct (login_shares_cases svc p w) as [-> | (r & _ & ->)]; [done|apply updated_ids]. }
  split; [done|]. unfold primary_key. by rewrite Hids.
Qed.

Lemma login_keeps_ids_witness :
  Shares.id <$> directus_shares
                  (snd (login Demo.service
                          {| Payload.share := "s1"; Payload.password := None |} Demo.world))
  = ["s1"; "s2"; "s3"; "s4"]
  ∧ primary_key
      (directus_shares
         (snd (login Demo.service
                 {| Payload.share := "s1"; Payload.password := None |} Demo.world))).
Proof.
  destruct (login_keeps_ids Demo.service
              {| Payload.share := "s1"; Payload.password := None |} Demo.world) as [Hids Hpk].
  split; [exact Hids|].
  apply Hpk. apply (bool_decide_unpack _). vm_compute. exact I.
Defined.

(** X2. With [id] a primary key, a login, whatever it answers, leaves each
    share's [times_used] as it was or one higher: the counter never
    decreases and never moves by more than one. *)
Theorem login_times_used_monotone svc p w :
  primary_key (directus_shares w) →
  ∀ (i : nat) x, directus_shares w !! i = Some x →
    ∃ x', directus_shares (snd (login svc p w)) !! i = Some x'
          ∧ Shares.times_used x ≤ Shares.times_used x' ≤ Shares.times_used x + 1.
Proof.
  intros Hpk i x Hx.
  destruct (login_shares_cases svc p w) as [-> | (r & Hr & ->)].
  - exists x. split; [done|lia].
  - rewrite updated_lookup, Hx. simpl. eexists. split; [reflexivity|].
    apply first_row_Some in Hr as [Hr _].
    case_decide as Hid; simpl; [|lia].
    assert (x = r) as -> by (apply (primary_key_inj _ _ _ Hpk); [by eapply list_elem_of_lookup_2|done..]).
    lia.
Qed.

Lemma login_times_used_monotone_witness :
  ∃ x', directus_shares
          (snd (login Demo.service {| Payload.share := "s1"; Payload.password := None |}
                  Demo.world)) !! 0%nat = Some x'
        ∧ Shares.times_used Demo.s1 ≤ Shares.times_used x' ≤ Shares.times_used Demo.s1 + 1.
Proof.
  apply (login_times_used_monotone Demo.service
           {| Payload.share := "s1"; Payload.password := None |} Demo.world).
  - apply (bool_decide_unpack _). vm_compute. exact I.
  - reflexivity.
Defined.

(** X3. With [id] a primary key, a login, whatever it answers, keeps the
    bound [times_used <= max_uses + 1] on every share that has a quota, and
    establishes it for the share it used. *)
Theorem login_keeps_quota_bound svc p w :
  primary_key (directus_shares w) →
  quota_bound (directus_shares w) →
  quota_bound (directus_shares (snd (login svc p w))).
Proof.
  intros Hpk Hq.
  destruct (login_shares_cases svc p w) as [-> | (r & Hr & ->)]; [done|].
  apply first_row_Some in Hr as [Hr (_ & _ & _ & Hu)].
  intros x m (y & Hy & ->)%updated_elem_of Hm.
  case_decide as Hid; [|by apply (Hq y)].
  assert (y = r) as -> by by apply (primary_key_inj _ _ _ Hpk).
  simpl in *. unfold uses_ok in Hu. rewrite Hm in Hu. lia.
Qed.

Lemma login_keeps_quota_bound_witness :
  quota_bound
    (directus_shares
       (snd (login Demo.service {| Payload.share := "s1"; Payload.password := None |}
               Demo.world))).
Proof.
  apply (login_keeps_quota_bound Demo.service
           {| Payload.share := "s1"; Payload.password := None |} Demo.world).
  - apply (bool_decide_unpack _). vm_compute. exact I.
  - intros r m Hr. revert Hr.
    change (directus_shares Demo.world) with [Demo.s1; Demo.s2; Demo.s3; Demo.s4].
    rewrite !elem_of_cons, elem_of_nil.
    intros [->|[->|[->|[->|[]]]]]; simpl; intros [= <-]. lia.
Defined.

(** ** When verification accepts *)

(** X4. With [id] a primary key and a store that answers the select,
    verification accepts the share of the requested id exactly when the row
    passes the three predicates and, if its stored password is a non-empty
    string, [argon2.verify] resolves to true on the supplied password. *)
Theorem verify_accepts_iff svc p w r :
  knex_rejects (ext svc) SelectShare = false →
  primary_key (directus_shares w) →
  r ∈ directus_shares w →
  Shares.id r = Payload.share p →
  let now := knex_now (ext svc) in
  verify svc p w = (Returns (select_columns r), w)
  ↔ end_ok now r ∧ start_ok now r ∧ uses_ok r
    ∧ (truthy (Shares.password r) = true →
       argon2_verify (ext svc) (default EmptyString (Shares.password r)) (Payload.password p)
       = Resolves true).
Proof.
  intros Hk Hpk Hr Hid now. split.
  - intros Hv. destruct (verify_returns _ _ _ _ _ Hv) as (r' & Hfirst & _).
    destruct (first_row_Some _ _ _ _ Hfirst) as [Hr' (Hid' & He & Hs & Hu)].
    assert (r' = r) as -> by (apply (primary_key_inj _ _ _ Hpk); congruence).
    split_and!; try done. intros Ht.
    rewrite (verify_checked svc p w r) in Hv by done.
    by destruct (argon2_verify _ _ _) as [[]|].
  - intros (He & Hs & Hu & Hpw).
    assert (first_row now (Payload.share p) (directus_shares w) = Some r) as Hfirst
      by by apply first_row_primary_key.
    destruct (truthy (Shares.password r)) eqn:Ht.
    + rewrite (verify_checked svc p w r) by done. by rewrite Hpw.
    + by apply verify_unchecked.
Qed.

Lemma verify_accepts_iff_witness :
  verify Demo.service {| Payload.share := "s2"; Payload.password := Some "secret" |} Demo.world
  = (Returns (select_columns Demo.s2), Demo.world)
  ∧ ¬ (end_ok 1000 Demo.s4 ∧ start_ok 1000 Demo.s4 ∧ uses_ok Demo.s4
       ∧ (truthy (Shares.password Demo.s4) = true →
          Demo.verifier (default EmptyString (Shares.password Demo.s4)) None = Resolves true)).
Proof.
  split.
  - apply (verify_accepts_iff Demo.service
             {| Payload.share := "s2"; Payload.password := Some "secret" |} Demo.world Demo.s2);
      [reflexivity
      |apply (bool_decide_unpack _); vm_compute; exact I
      |apply list_elem_of_further, list_elem_of_here
      |reflexivity
      |].
    split_and!; [by vm_compute..|reflexivity].
  - intros H.
    apply (verify_accepts_iff Demo.service
             {| Payload.share := "s4"; Payload.password := None |} Demo.world Demo.s4) in H;
      [discriminate H
      |reflexivity
      |apply (bool_decide_unpack _); vm_compute; exact I
      |do 3 apply list_elem_of_further; apply list_elem_of_here
      |reflexivity].
Defined.

(** ** The access token *)

(** X5. The access token a login returns is [jwt.sign] of a payload that
    grants neither app nor admin access and carries the role, id, item and
    collection of the row the select returned; the returned [expires] is the
    access-token TTL. *)
Theorem login_token_payload svc p w res w' :
  login svc p w = (Returns res, w') →
  ∃ r t,
    first_row (knex_now (ext svc)) (Payload.share p) (directus_shares w) = Some r
    ∧ jwt_sign (ext svc) t = Resolves (accessToken res)
    ∧ Token.app_access t = false
    ∧ Token.admin_access t = false
    ∧ Token.role t = Shares.role r
    ∧ Token.share t = Payload.share p
    ∧ Token.item (Token.share_scope t) = Shares.item r
    ∧ Token.collection (Token.share_scope t) = Shares.collection r
    ∧ expires res = ACCESS_TOKEN_TTL (ext svc).
Proof.
  intros Hl.
  destruct (login_returns _ _ _ _ _ Hl) as (r & Hfirst & _ & Hi & _).
  apply issue_returns in Hi as (_ & Hsign & _ & Hexp & _).
  destruct (first_row_Some _ _ _ _ Hfirst) as [_ [Hid _]].
  exists r, (tokenPayload (select_columns r)). by split_and!.
Qed.

Lemma login_token_payload_witness :
  ∃ r t,
    first_row 1000 "s2" (directus_shares Demo.world) = Some r
    ∧ Demo.externals.(jwt_sign) t = Resolves "jwt:s2"
    ∧ Token.app_access t = false
    ∧ Token.admin_access t = false
    ∧ Token.role t = Shares.role r
    ∧ Token.share t = "s2"
    ∧ Token.item (Token.share_scope t) = Shares.item r
    ∧ Token.collection (Token.share_scope t) = Shares.collection r
    ∧ 900000 = 900000.
Proof.
  apply (login_token_payload Demo.service
           {| Payload.share := "s2"; Payload.password := Some "secret" |} Demo.world
           {| accessToken := "jwt:s2"; refreshToken := "refresh-1"; expires := 900000 |}
           (after_sweep Demo.service (select_columns Demo.s2) Demo.world)).
  vm_compute. reflexivity.
Defined.

(** ** Partial writes *)

(** When the store rejects the update, login throws the store's
    rejection and nothing at all has been written. *)
Theorem login_rejected_update_writes_nothing svc p w record w1 :
  verify svc p w = (Returns record, w1) →
  knex_rejects (ext svc) UpdateShare = true →
  login svc p w = (Throws (Rejected Knex), w).
Proof.
  intros Hv Hu. pose proof (verify_pure _ _ _ _ _ Hv) as ->.
  by rewrite login_run, Hv, issue_run, Hu.
Qed.

Lemma login_rejected_update_writes_nothing_witness :
  login (Demo.service_rejecting UpdateShare)
    {| Payload.share := "s1"; Payload.password := None |} Demo.world
  = (Throws (Rejected Knex), Demo.world).
Proof.
  eapply (login_rejected_update_writes_nothing (Demo.service_rejecting UpdateShare)
            {| Payload.share := "s1"; Payload.password := None |} Demo.world).
  - vm_compute. reflexivity.
  - reflexivity.
Defined.



(** X7. When the update, the signing and the insert went through and the
    store rejects the final delete, login throws and returns no tokens,
    although the use has been counted and the session row of the unreturned
    refresh token has been inserted; no session has been deleted. *)
Theorem login_rejected_sweep_keeps_session svc p w record w1 t :
  verify svc p w = (Returns record, w1) →
  knex_rejects (ext svc) UpdateShare = false →
  jwt_sign (ext svc) (tokenPayload record) = Resolves t →
  knex_rejects (ext svc) InsertSession = false →
  knex_rejects (ext svc) DeleteSessions = true →
  login svc p w = (Throws (Rejected Knex), after_insert svc record w)
  ∧ directus_sessions (after_insert svc record w)
    = directus_sessions w ++ [new_session svc record]
  ∧ Sessions.token (new_session svc record) = nanoid64 (ext svc).
Proof.
  intros Hv Hu Hs Hi Hd. pose proof (verify_pure _ _ _ _ _ Hv) as ->.
  by rewrite login_run, Hv, issue_run, Hu, Hs, Hi, Hd.
Qed.

Lemma login_rejected_sweep_keeps_session_witness :
  login (Demo.service_rejecting DeleteSessions)
    {| Payload.share := "s1"; Payload.password := None |} Demo.world
  = (Throws (Rejected Knex),
     after_insert (Demo.service_rejecting DeleteSessions) (select_columns Demo.s1) Demo.world)
  ∧ directus_sessions
      (after_insert (Demo.service_rejecting DeleteSessions) (select_columns Demo.s1) Demo.world)
    = [Demo.stale; Demo.fresh;
       new_session (Demo.service_rejecting DeleteSessions) (select_columns Demo.s1)]
  ∧ Sessions.token (new_session (Demo.service_rejecting DeleteSessions) (select_columns Demo.s1))
    = "refresh-1".
Proof.
  apply (login_rejected_sweep_keeps_session (Demo.service_rejecting DeleteSessions)
           {| Payload.share := "s1"; Payload.password := None |} Demo.world
           (select_columns Demo.s1) Demo.world "jwt:s1").
  - vm_compute. reflexivity.
  - reflexivity.
  - reflexivity.
  - reflexivity.
  - reflexivity.
Defined.

(** ** Logins in sequence *)



(** ** What login leaves alone *)

(** X9. Whatever a login answers, it dispatches no message, and it never
    rewrites a session row: every session in the table afterwards was there
    before, or is the one row this login inserted, for this share and with
    this login's refresh token. *)
Theorem login_session_rows_frame svc p w :
  outbox (snd (login svc p w)) = outbox w
  ∧ ∀ x, x ∈ directus_sessions (snd (login svc p w)) →
      x ∈ directus_sessions w
      ∨ (Sessions.token x = nanoid64 (ext svc)
         ∧ Sessions.share x = Some (Payload.share p)
         ∧ Sessions.expires x = Date_now (ext svc) + REFRESH_TOKEN_TTL (ext svc)).
Proof.
  destruct (login_world_cases svc p w) as [-> | (r & Hr & Hw)].
  { split; [done|]. by left. }
  destruct (first_row_Some _ _ _ _ Hr) as [_ [Hid _]].
  assert (∀ x, x ∈ directus_sessions w ++ [new_session svc (select_columns r)] →
               x ∈ directus_sessions w
               ∨ (Sessions.token x = nanoid64 (ext svc)
                  ∧ Sessions.share x = Some (Payload.share p)
                  ∧ Sessions.expires x = Date_now (ext svc) + REFRESH_TOKEN_TTL (ext svc)))
    as Happ.
  { intros x [Hx|Hx]%elem_of_app; [by left|right].
    apply list_elem_of_singleton in Hx as ->. simpl. by rewrite Hid. }
  destruct Hw as [-> | [-> | ->]]; simpl; (split; [done|]).
  - by left.
  - exact Happ.
  - intros x [_ Hx]%list_elem_of_filter. by apply Happ.
Qed.

Lemma login_session_rows_frame_witness :
  let attempt :=
    login (Demo.service_rejecting DeleteSessions)
      {| Payload.share := "s1"; Payload.password := None |} Demo.world in
  outbox (snd attempt) = []
  ∧ (Demo.stale ∈ directus_sessions Demo.world
     ∨ Sessions.token Demo.stale = "refresh-1"
       ∧ Sessions.share Demo.stale = Some "s1"
       ∧ Sessions.expires Demo.stale = 1000 + 604800000).
Proof.
  intros attempt.
  destruct (login_session_rows_frame (Demo.service_rejecting DeleteSessions)
              {| Payload.share := "s1"; Payload.password := None |} Demo.world)
    as [Hout Hrows].
  split; [exact Hout|].
  apply Hrows. vm_compute. apply list_elem_of_here.
Defined.

(** ** A refresh token that is expired on arrival *)

(** X10. When the session a login inserts is already expired at the sweep
    (a refresh TTL that is negative, or shorter than the time the call
    takes), the login still returns its tokens, but the sweep of the same
    call has deleted that session: the table holds the old unexpired rows
    only. *)
Theorem login_sweeps_own_session svc p w res w' :
  login svc p w = (Returns res, w') →
  Date_now (ext svc) + REFRESH_TOKEN_TTL (ext svc) < new_Date (ext svc) →
  refreshToken res = nanoid64 (ext svc)
  ∧ directus_sessions w' = swept (new_Date (ext svc)) (directus_sessions w).
Proof.
  intros Hl Hexp.
  destruct (login_returns _ _ _ _ _ Hl) as (r & _ & _ & Hi & ->).
  apply issue_returns in Hi as (_ & _ & Htok & _).
  split; [done|]. simpl. unfold swept.
  rewrite filter_app, filter_cons_False, filter_nil, app_nil_r; [done|].
  simpl. intros H. by apply H.
Qed.

Lemma login_sweeps_own_session_witness :
  let attempt :=
    login Cases.negative_ttl {| Payload.share := "s1"; Payload.password := None |} Demo.world in
  "refresh-9" = "refresh-9"
  ∧ directus_sessions (snd attempt) = swept 1001 (directus_sessions Demo.world).
Proof.
  intros attempt.
  apply (login_sweeps_own_session Cases.negative_ttl
           {| Payload.share := "s1"; Payload.password := None |} Demo.world
           {| accessToken := "jwt:s1"; refreshToken := "refresh-9"; expires := 900000 |}
           (snd attempt)).
  - vm_compute. reflexivity.
  - vm_compute. reflexivity.
Defined.

(** * Further properties of invite *)

(** ** How invite runs *)

Lemma dispatched_nil w : dispatched [] w = w.
Proof. destruct w. unfold dispatched. simpl. by rewrite app_nil_r. Qed.

Lemma dispatched_app ms1 ms2 w : dispatched ms2 (dispatched ms1 w) = dispatched (ms1 ++ ms2) w.
Proof. unfold dispatched. simpl. by rewrite app_assoc. Qed.

Lemma mail_send_run svc m w :
  mail_send svc m w =
    if mail_rejects (ext svc) m then (Throws (Rejected MailSend), w)
    else (Returns tt, dispatched [m] w).
Proof. unfold mail_send. by destruct (mail_rejects (ext svc) m). Qed.

Lemma send_each_cons svc mk e rest w :
  send_each svc mk (e :: rest) w =
    if mail_rejects (ext svc) (mk e) then (Throws (Rejected MailSend), w)
    else send_each svc mk rest (dispatched [mk e] w).
Proof.
  simpl. unfold mbind at 1. unfold Async_bind. rewrite mail_send_run.
  by destruct (mail_rejects (ext svc) (mk e)).
Qed.

(** The loop, whatever it answers: it dispatched to the recipients up to
    the first one whose message the mail service rejects, in order. *)
Lemma send_each_run svc mk emails w :
  ∃ sent rest,
    emails = sent ++ rest
    ∧ (∀ e, e ∈ sent → mail_rejects (ext svc) (mk e) = false)
    ∧ snd (send_each svc mk emails w) = dispatched (mk <$> sent) w
    ∧ (rest = [] ∧ fst (send_each svc mk emails w) = Returns tt
       ∨ ∃ e rest', rest = e :: rest'
                    ∧ mail_rejects (ext svc) (mk e) = true
                    ∧ fst (send_each svc mk emails w) = Throws (Rejected MailSend)).
Proof.
  revert w. induction emails as [|e emails IH]; intros w.
  - exists [], []. simpl. split_and!; [done|by intros ? ?%elem_of_nil| |by left].
    by rewrite dispatched_nil.
  - rewrite send_each_cons. destruct (mail_rejects (ext svc) (mk e)) eqn:He.
    + exists [], (e :: emails). simpl.
      split_and!; [done|by intros ? ?%elem_of_nil|by rewrite dispatched_nil|].
      right. by exists e, emails.
    + destruct (IH (dispatched [mk e] w)) as (sent & rest & -> & Hsent & Hw & Hout).
      exists (e :: sent), rest. split_and!; [done| | |done].
      * intros e' [->|He']%elem_of_cons; [done|by apply Hsent].
      * rewrite Hw, dispatched_app. by rewrite fmap_cons.
Qed.

Lemma invite_run svc payload w :
  truthy (a ← accountability svc; user a) = true →
  invite svc payload w =
    match readOne (ext svc) (Payload.invite_share payload) with
    | Rejects => (Throws (Rejected ItemsRead), w)
    | Resolves collection =>
        match users_readOne (ext svc) (default EmptyString (a ← accountability svc; user a)) with
        | Rejects => (Throws (Rejected UsersRead), w)
        | Resolves userInfo =>
            send_each svc (invitation svc userInfo collection (Payload.invite_share payload))
              (Payload.emails payload) w
        end
    end.
Proof.
  intros Hu. unfold invite. rewrite Hu. simpl. run.
  destruct (readOne _ _) as [c|]; [|done]. simpl.
  by destruct (users_readOne _ _) as [ui|].
Qed.

(** ** Dispatch *)

(** X11. For a signed-in caller whose share read and user lookup resolve
    and whose messages the mail service all accepts, invite returns after
    dispatching exactly one message per recipient, in the order of
    [payload.emails], each addressed to its recipient; with no recipients it
    dispatches nothing. *)
Theorem invite_dispatches_one_each svc payload w collection userInfo :
  truthy (a ← accountability svc; user a) = true →
  readOne (ext svc) (Payload.invite_share payload) = Resolves collection →
  users_readOne (ext svc) (default EmptyString (a ← accountability svc; user a))
  = Resolves userInfo →
  (∀ e, e ∈ Payload.emails payload →
        mail_rejects (ext svc)
          (invitation svc userInfo collection (Payload.invite_share payload) e) = false) →
  invite svc payload w
  = (Returns tt,
     dispatched
       (invitation svc userInfo collection (Payload.invite_share payload)
          <$> Payload.emails payload) w)
  ∧ to <$> (invitation svc userInfo collection (Payload.invite_share payload)
              <$> Payload.emails payload)
    = Payload.emails payload.
Proof.
  intros Hu Hshare Huser Hok. split.
  - rewrite invite_run, Hshare, Huser by done.
    set (mk := invitation svc userInfo collection (Payload.invite_share payload)) in *.
    destruct (send_each_run svc mk (Payload.emails payload) w)
      as (sent & rest & Hsplit & _ & Hw & [[-> Hout] | (e & rest' & -> & He & _)]).
    + rewrite app_nil_r in Hsplit. subst sent.
      destruct (send_each svc mk (Payload.emails payload) w) as [o w'].
      simpl in *. by subst.
    + rewrite Hok in He; [done|]. rewrite Hsplit. apply elem_of_app. right. by left.
  - rewrite <- list_fmap_compose. rewrite <- (list_fmap_id (Payload.emails payload)) at 2.
    by apply list_fmap_ext.
Qed.

Lemma invite_dispatches_one_each_witness :
  to <$> outbox (snd (invite Cases.editor Cases.three Demo.world))
  = ["a@example.org"; "b@example.org"; "c@example.org"]
  ∧ invite Cases.editor {| Payload.emails := []; Payload.invite_share := "s1" |} Demo.world
    = (Returns tt, Demo.world).
Proof.
  split.
  - destruct (invite_dispatches_one_each Cases.editor Cases.three Demo.world "articles"
                {| first_name := None; last_name := None; email := None; user_pk := "u1" |})
      as [Hrun Hto]; [reflexivity..|].
    rewrite Hrun. simpl. exact Hto.
  - destruct (invite_dispatches_one_each Cases.editor
                {| Payload.emails := []; Payload.invite_share := "s1" |} Demo.world "articles"
                {| first_name := None; last_name := None; email := None; user_pk := "u1" |})
      as [Hrun _]; [reflexivity..|].
    rewrite Hrun. reflexivity.
Defined.

(** X12. The first message the mail service rejects ends the loop and the
    call: the recipients before it have had their message dispatched, the
    rejected one and all those after it get none, and invite throws the mail
    service's rejection. *)
Theorem invite_stops_at_rejected_send svc payload w collection userInfo before e after :
  truthy (a ← accountability svc; user a) = true →
  readOne (ext svc) (Payload.invite_share payload) = Resolves collection →
  users_readOne (ext svc) (default EmptyString (a ← accountability svc; user a))
  = Resolves userInfo →
  Payload.emails payload = before ++ e :: after →
  (∀ e', e' ∈ before →
         mail_rejects (ext svc)
           (invitation svc userInfo collection (Payload.invite_share payload) e') = false) →
  mail_rejects (ext svc)
    (invitation svc userInfo collection (Payload.invite_share payload) e) = true →
  invite svc payload w
  = (Throws (Rejected MailSend),
     dispatched
       (invitation svc userInfo collection (Payload.invite_share payload) <$> before) w).
Proof.
  intros Hu Hshare Huser Hsplit Hok Hbad.
  rewrite invite_run, Hshare, Huser, Hsplit by done.
  set (mk := invitation svc userInfo collection (Payload.invite_share payload)) in *.
  clear Hsplit. revert w. induction before as [|b before IH]; intros w.
  - simpl app. rewrite send_each_cons, Hbad. simpl. by rewrite dispatched_nil.
  - simpl app. rewrite send_each_cons, Hok by left.
    rewrite IH by (intros e' He'; apply Hok; by right).
    by rewrite dispatched_app, fmap_cons.
Qed.

Lemma invite_stops_at_rejected_send_witness :
  let attempt := invite Cases.editor_bounced Cases.three Demo.world in
  fst attempt = Throws (Rejected MailSend)
  ∧ to <$> outbox (snd attempt) = ["a@example.org"].
Proof.
  intros attempt. unfold attempt.
  rewrite (invite_stops_at_rejected_send Cases.editor_bounced Cases.three Demo.world "articles"
             {| first_name := None; last_name := None; email := None; user_pk := "u1" |}
             ["a@example.org"] "b@example.org" ["c@example.org"]).
  - split; reflexivity.
  - reflexivity.
  - reflexivity.
  - reflexivity.
  - reflexivity.
  - intros e' ->%list_elem_of_singleton. reflexivity.
  - reflexivity.
Defined.

(** ** What invite leaves alone *)

(** X13. Whatever invite answers, it leaves the share and session tables
    as they were and only appends to the outbox: the messages it appended
    are addressed, in order, to a leading part of [payload.emails], which is
    all of them when invite returns. *)
Theorem invite_frame svc payload w :
  directus_shares (snd (invite svc payload w)) = directus_shares w
  ∧ directus_sessions (snd (invite svc payload w)) = directus_sessions w
  ∧ ∃ ms, outbox (snd (invite svc payload w)) = outbox w ++ ms
          ∧ to <$> ms `prefix_of` Payload.emails payload
          ∧ (fst (invite svc payload w) = Returns tt → to <$> ms = Payload.emails payload).
Proof.
  set (holds := λ res : Outcome unit * World,
         directus_shares (snd res) = directus_shares w
         ∧ directus_sessions (snd res) = directus_sessions w
         ∧ ∃ ms, outbox (snd res) = outbox w ++ ms
                 ∧ to <$> ms `prefix_of` Payload.emails payload
                 ∧ (fst res = Returns tt → to <$> ms = Payload.emails payload)).
  change (holds (invite svc payload w)).
  assert (∀ e, holds (Throws e, w)) as Hthrown.
  { intros e. unfold holds. simpl. split_and!; [done..|]. exists [].
    split_and!; [by rewrite app_nil_r|by apply prefix_nil|done]. }
  destruct (truthy (a ← accountability svc; user a)) eqn:Hu.
  - rewrite invite_run by done.
    destruct (readOne _ _) as [c|]; [|apply Hthrown].
    destruct (users_readOne _ _) as [ui|]; [|apply Hthrown].
    set (mk := invitation svc ui c (Payload.invite_share payload)).
    destruct (send_each_run svc mk (Payload.emails payload) w)
      as (sent & rest & Hsplit & _ & Hw & Hout).
    unfold holds. rewrite Hw. simpl. split_and!; [done..|].
    exists (mk <$> sent).
    assert (to <$> (mk <$> sent) = sent) as Hto.
    { rewrite <- list_fmap_compose. rewrite <- (list_fmap_id sent) at 2.
      by apply list_fmap_ext. }
    rewrite Hto. split_and!; [done|by exists rest|].
    intros Hret. destruct Hout as [[-> _] | (e & rest' & _ & _ & Hthrow)].
    + by rewrite app_nil_r in Hsplit.
    + congruence.
  - unfold invite. rewrite Hu. apply Hthrown.
Qed.

Lemma invite_frame_witness :
  let attempt := invite Cases.editor_bounced Cases.three Demo.world in
  directus_shares (snd attempt) = directus_shares Demo.world
  ∧ directus_sessions (snd attempt) = directus_sessions Demo.world
  ∧ ∃ ms, outbox (snd attempt) = outbox Demo.world ++ ms
          ∧ to <$> ms `prefix_of` Payload.emails Cases.three
          ∧ (fst attempt = Returns tt → to <$> ms = Payload.emails Cases.three).
Proof.
  intros attempt.
  exact (invite_frame Cases.editor_bounced Cases.three Demo.world).
Defined.

(** ** The reads before the dispatch *)

(** X14. For a signed-in caller, invite reads the share before it looks
    the caller up and before it dispatches anything: when the share read is
    rejected invite throws that rejection, whatever the user lookup would
    answer, and when the share read resolves but the user lookup is rejected
    it throws that one; in both cases no message is dispatched. *)
Theorem invite_rejected_read_dispatches_nothing svc payload w :
  truthy (a ← accountability svc; user a) = true →
  (readOne (ext svc) (Payload.invite_share payload) = Rejects →
   invite svc payload w = (Throws (Rejected ItemsRead), w))
  ∧ (∀ collection,
       readOne (ext svc) (Payload.invite_share payload) = Resolves collection →
       users_readOne (ext svc) (default EmptyString (a ← accountability svc; user a)) = Rejects →
       invite svc payload w = (Throws (Rejected UsersRead), w)).
Proof.
  intros Hu. rewrite invite_run by done. split.
  - by intros ->.
  - by intros c -> ->.
Qed.

Lemma invite_rejected_read_dispatches_nothing_witness :
  invite Cases.editor_unreadable Cases.three Demo.world
  = (Throws (Rejected ItemsRead), Demo.world).
Proof.
  apply (invite_rejected_read_dispatches_nothing Cases.editor_unreadable Cases.three Demo.world).
  - reflexivity.
  - reflexivity.
Defined.
